(** * torchtnt: loop helpers and the TensorBoard logger

    A shallow embedding of [torchtnt/framework/_loop_utils.py] and of the
    logger exercised by [tests/utils/loggers/test_tensorboard.py].

    Python [int] is [Z], [Optional[int]] is [option Z], a [Dict[str, _]]
    that is only looked up by key is a [gmap string _], and a dictionary
    whose iteration order is observable is an association list in
    insertion order.  Mutable objects ([nn.Module], samplers) live in an
    explicit store addressed by object identity, so that two names for one
    object really share it. *)

From Stdlib Require Import ZArith List Bool Ascii String Lia Sorted.
From stdpp Require Import base option list strings gmap.

Local Open Scope Z_scope.
Set Warnings "-clear-no-such-hyp".

(** ** Exceptions and the result of a call that may raise *)

Inductive exn : Type :=
| KeyError (key : string)
| AttributeError (attr : string)
| ValueError (literal : string)
| UnicodeError.

Inductive result (A : Type) : Type :=
| Ok (a : A)
| Raise (e : exn).
Arguments Ok {A} a.
Arguments Raise {A} e.

Definition rbind {A B : Type} (r : result A) (k : A → result B) : result B :=
  match r with
  | Ok a => k a
  | Raise e => Raise e
  end.

#[global] Instance result_ret : MRet result := @Ok.
#[global] Instance result_bind : MBind result := λ A B k r, rbind r k.

(** ** Progress counters and the completion predicates *)

Module LoopUtils.

(** [torchtnt.utils.progress.Progress]: the three counters the helpers read. *)
Record Progress : Type := {
  num_epochs_completed : Z;
  num_steps_completed : Z;
  num_steps_completed_in_epoch : Z
}.

(** [x is not None and c >= x]: the comparison is only evaluated when the
    optional bound is present. *)
Definition reached (bound : option Z) (c : Z) : bool :=
  match bound with
  | None => false
  | Some x => x <=? c
  end.

Definition _is_done (progress : Progress) (max_epochs max_steps : option Z) : bool :=
  reached max_steps (num_steps_completed progress)
  || reached max_epochs (num_epochs_completed progress).

Definition _is_epoch_done (progress : Progress)
    (max_steps_per_epoch max_steps : option Z) : bool :=
  reached max_steps (num_steps_completed progress)
  || reached max_steps_per_epoch (num_steps_completed_in_epoch progress).

(** Every counter of [p'] is at least the one of [p]. *)
Definition at_least (p p' : Progress) : Prop :=
  num_epochs_completed p ≤ num_epochs_completed p'
  ∧ num_steps_completed p ≤ num_steps_completed p'
  ∧ num_steps_completed_in_epoch p ≤ num_steps_completed_in_epoch p'.

(** The maximum [b'] is set wherever [b] is, and no larger. *)
Definition tighter (b' b : option Z) : Prop :=
  match b with
  | None => True
  | Some x => ∃ x', b' = Some x' ∧ x' ≤ x
  end.

(** The key [_log_api_usage] builds: [f"torchtnt.framework.{entry_point}"]. *)
Definition api_usage_key (entry_point : string) : string :=
  "torchtnt.framework." +:+ entry_point.

(** [_log_api_usage] makes one call of [torch._C._log_api_usage_once];
    [calls] is the sequence of keys that function has been called with. *)
Definition _log_api_usage (entry_point : string) (calls : list string)
    : list string :=
  calls ++ [api_usage_key entry_point].

End LoopUtils.


(** ** Module training mode: save and restore *)

Module TrainingMode.

(** The identity of an [nn.Module] object. *)
Definition mod_id : Type := nat.

(** The [training] attribute of every module object. *)
Definition store : Type := mod_id → bool.

(** [Dict[str, nn.Module]], in iteration (insertion) order.  The values are
    object identities: two names may denote one module.  A dictionary has
    no repeated key, which the theorems require as [NoDup modules.*1]. *)
Definition module_dict : Type := list (string * mod_id).

Section WithHierarchy.

(** The module hierarchy: [submodules m] lists every module reachable from
    [m] through [children()].  The helpers never change it. *)
Variable submodules : mod_id → list mod_id.

(** [nn.Module.train(mode)] of torch: sets [self.training] and calls
    [train(mode)] on every child, so the flag of [m] and of every module
    below [m] becomes [mode]. *)
Definition train (m : mod_id) (mode : bool) (σ : store) : store :=
  λ x, if decide (x ∈ m :: submodules m) then mode else σ x.

(** The loop of [_set_module_training_mode]; [prior] is
    [prior_module_train_states] so far. *)
Fixpoint set_loop (items : module_dict) (mode : bool)
    (prior : gmap string bool) (σ : store) : gmap string bool * store :=
  match items with
  | [] => (prior, σ)
  | (name, module) :: rest =>
      let prior := <[name := σ module]> prior in
      let σ := train module mode σ in
      set_loop rest mode prior σ
  end.

Definition _set_module_training_mode (modules : module_dict) (mode : bool)
    (σ : store) : gmap string bool * store :=
  set_loop modules mode ∅ σ.

(** [if name in prior_modes: module.train(prior_modes[name])]: the
    subscript is only evaluated under the membership test. *)
Fixpoint _reset_module_training_mode (modules : module_dict)
    (prior_modes : gmap string bool) (σ : store) : store :=
  match modules with
  | [] => σ
  | (name, module) :: rest =>
      let σ := match prior_modes !! name with
               | Some b => train module b σ
               | None => σ
               end in
      _reset_module_training_mode rest prior_modes σ
  end.

(** No module of the mapping is, or lies below, a module that the mapping
    holds under another name. *)
Definition independent (modules : module_dict) : Prop :=
  Forall (λ p, Forall (λ q, p.1 ≠ q.1 → q.2 ∉ p.2 :: submodules p.2) modules)
         modules.

#[global] Instance independent_dec (modules : module_dict) :
  Decision (independent modules).
Proof. unfold independent. apply _. Defined.

(** Every module that some [train] call of a loop over [items] writes. *)
Definition touched (items : module_dict) : list mod_id :=
  items ≫= (λ p, p.2 :: submodules p.2).

(** The two statements of the specification, at one input. *)
Definition prior_is_flag_before_call (modules : module_dict) (mode : bool)
    (σ : store) : Prop :=
  ∀ name m, (name, m) ∈ modules →
    (_set_module_training_mode modules mode σ).1 !! name = Some (σ m).

Definition restores_every_module (modules : module_dict) (mode : bool)
    (σ : store) : Prop :=
  let r := _set_module_training_mode modules mode σ in
  ∀ name m, (name, m) ∈ modules →
    _reset_module_training_mode modules r.1 r.2 m = σ m.

(** The flag the last [train] call of the reset loop writes to [x], if any
    call writes to it. *)
Fixpoint last_write (items : module_dict) (prior_modes : gmap string bool)
    (x : mod_id) : option bool :=
  match items with
  | [] => None
  | (name, module) :: rest =>
      match last_write rest prior_modes x with
      | Some b => Some b
      | None =>
          match prior_modes !! name with
          | Some b =>
              if decide (x ∈ module :: submodules module) then Some b else None
          | None => None
          end
      end
  end.

(** Every module below a module of the mapping carries that module's flag. *)
Definition flags_uniform (modules : module_dict) (σ : store) : Prop :=
  ∀ name m x, (name, m) ∈ modules → x ∈ submodules m → σ x = σ m.

End WithHierarchy.

(** A parent module 0 with child 1, and an unrelated module 2. *)
Definition example_hierarchy (m : mod_id) : list mod_id :=
  match m with
  | O => [1%nat]
  | _ => []
  end.

Definition example_modules : module_dict := [("model", 0%nat); ("head", 2%nat)].

Definition example_store (m : mod_id) : bool := bool_decide (m = 2%nat).

(** One module object held under two names. *)
Definition aliased_modules : module_dict := [("a", 0%nat); ("b", 0%nat)].

(** A module and its own child, each held under a name of its own, as a
    unit with the attributes [model] and [head = model.head] has them. *)
Definition nested_modules : module_dict := [("model", 0%nat); ("head", 1%nat)].

(** Every module in training mode. *)
Definition all_training : store := λ _, true.

End TrainingMode.

(** ** Signature inspection *)

Module StepSignature.

(** A class or special form, compared by identity ([is]). *)
Inductive type_obj : Type :=
| TypeObj (qualname : string).

#[global] Instance type_obj_eq_dec : EqDecision type_obj.
Proof. solve_decision. Defined.

Definition collections_abc_Iterator : type_obj :=
  TypeObj "collections.abc.Iterator".

(** What a parameter annotation can be: a plain class, the string of a
    postponed annotation, or a parameterised form such as [Iterator[T]],
    which remembers its unsubscripted origin. *)
#[warnings="-register-all"]
Inductive annotation : Type :=
| Plain (t : type_obj)
| Postponed (text : string)
| Alias (origin : type_obj) (args : list annotation).

(** [typing_extensions.get_origin]: the origin of a parameterised form,
    [None] for everything else. *)
Definition get_origin (t : annotation) : option type_obj :=
  match t with
  | Alias origin _ => Some origin
  | Plain _ | Postponed _ => None
  end.

(** A callable, as far as [inspect.getfullargspec] looks at it. *)
Record callable : Type := {
  arg_names : list string;
  arg_annotations : gmap string annotation
}.

Record FullArgSpec : Type := {
  args : list string;
  annotations : gmap string annotation
}.

Definition getfullargspec (f : callable) : FullArgSpec :=
  {| args := arg_names f; annotations := arg_annotations f |}.

(** One record handed to [_logger]. *)
Inductive log_record : Type :=
| Warning (message : string) (found : gmap string annotation).

(** [d[key]] *)
Definition getitem {V : Type} (d : gmap string V) (key : string) : result V :=
  match d !! key with
  | Some v => Ok v
  | None => Raise (KeyError key)
  end.

(** The records logged, and the value returned or the exception raised. *)
Definition _step_requires_iterator (step_func : callable)
    : list log_record * result bool :=
  let argspec := getfullargspec step_func in
  let annotations := annotations argspec in
  if bool_decide (annotations !! "data" = None) then
    ([Warning "Expected step function to have an annotated argument named ``data``."
              annotations],
     Ok false)
  else
    ([],
     annotated_type ← getitem annotations "data";
     Ok (bool_decide (get_origin annotated_type = Some collections_abc_Iterator))).

End StepSignature.

(** ** Distributed sampler epoch *)

Module SamplerEpoch.

(** The identity of a sampler object. *)
Definition sampler_id : Type := nat.

(** A sampler object: an instance of [DistributedSampler] (or of a subclass)
    with its [epoch] attribute, or an instance of any other class. *)
Inductive sampler : Type :=
| DistributedSampler (epoch : Z)
| OtherSampler.

Definition heap : Type := sampler_id → sampler.

(** The argument: a [torch.utils.data.DataLoader] holding a reference to its
    sampler, or any other iterable. *)
Inductive iterable : Type :=
| DataLoader (sampler_ref : sampler_id)
| OtherIterable.

Definition is_DataLoader (d : iterable) : bool :=
  match d with DataLoader _ => true | OtherIterable => false end.

Definition is_DistributedSampler (s : sampler) : bool :=
  match s with DistributedSampler _ => true | OtherSampler => false end.

(** [dataloader.sampler] *)
Definition get_sampler (d : iterable) : result sampler_id :=
  match d with
  | DataLoader s => Ok s
  | OtherIterable => Raise (AttributeError "sampler")
  end.

(** A method call made on a sampler. *)
Inductive call : Type :=
| SetEpoch (target : sampler_id) (epoch : Z).

(** [DistributedSampler.set_epoch(epoch)]: [self.epoch = epoch]. *)
Definition set_epoch (s : sampler_id) (epoch : Z) (h : heap) : heap :=
  λ x, if decide (x = s) then DistributedSampler epoch else h x.

(** The heap after the call and the method calls made, or the exception.
    [and] evaluates its right operand only when the left one is true. *)
Definition _maybe_set_distributed_sampler_epoch (dataloader : iterable)
    (current_epoch : Z) (h : heap) : result (heap * list call) :=
  if is_DataLoader dataloader then
    s ← get_sampler dataloader;
    if is_DistributedSampler (h s) then
      Ok (set_epoch s current_epoch h, [SetEpoch s current_epoch])
    else Ok (h, [])
  else Ok (h, []).

(** The condition under which the helper acts. *)
Definition has_distributed_sampler (dataloader : iterable) (h : heap) : Prop :=
  ∃ s e, dataloader = DataLoader s ∧ h s = DistributedSampler e.

End SamplerEpoch.

(** ** The TensorBoard logger *)

Module TensorBoard.

(** [int(s)] on the strings a rank is written as: an optional sign and
    decimal digits; anything else is a [ValueError]. *)
Definition digit_of (c : ascii) : option Z :=
  let n := Z.of_nat (nat_of_ascii c) in
  if decide (48 ≤ n ≤ 57) then Some (n - 48) else None.

Fixpoint parse_digits (acc : Z) (s : string) : option Z :=
  match s with
  | EmptyString => Some acc
  | String c s' =>
      match digit_of c with
      | Some d => parse_digits (acc * 10 + d) s'
      | None => None
      end
  end.

Definition parse_nonempty_digits (s : string) : option Z :=
  match s with
  | EmptyString => None
  | String _ _ => parse_digits 0 s
  end.

Definition py_int (s : string) : result Z :=
  let parsed :=
    match s with
    | String "-" s' => Z.opp <$> parse_nonempty_digits s'
    | String "+" s' => parse_nonempty_digits s'
    | _ => parse_nonempty_digits s
    end in
  match parsed with
  | Some n => Ok n
  | None => Raise (ValueError s)
  end.

(** *** UTF-8

    A Python [str] is a sequence of code points, a [bytes] a sequence of
    integers below 256.  [str.encode] refuses surrogates; [bytes.decode]
    refuses stray, truncated, overlong and out-of-range sequences. *)

Definition is_scalar_value (c : Z) : Prop :=
  0 ≤ c < 55296 ∨ 57344 ≤ c ≤ 1114111.

#[global] Instance is_scalar_value_dec (c : Z) : Decision (is_scalar_value c).
Proof. unfold is_scalar_value. apply _. Defined.

Definition utf8_encode_cp (c : Z) : list Z :=
  if decide (c < 128) then [c]
  else if decide (c < 2048) then [192 + c / 64; 128 + c mod 64]
  else if decide (c < 65536) then
    [224 + c / 4096; 128 + (c / 64) mod 64; 128 + c mod 64]
  else
    [240 + c / 262144; 128 + (c / 4096) mod 64; 128 + (c / 64) mod 64;
     128 + c mod 64].

Definition str_encode (text : list Z) : result (list Z) :=
  if decide (Forall is_scalar_value text) then Ok (text ≫= utf8_encode_cp)
  else Raise UnicodeError.

Definition is_continuation (b : Z) : Prop := 128 ≤ b < 192.

#[global] Instance is_continuation_dec (b : Z) : Decision (is_continuation b).
Proof. unfold is_continuation. apply _. Defined.



(** [bytes.decode("ASCII")]: every byte below 128 is its own code point,
    any other byte is refused. *)
Definition ascii_decode (bs : list Z) : result (list Z) :=
  if decide (Forall (λ b, 0 ≤ b < 128) bs) then Ok bs else Raise UnicodeError.

(** The code points of an ASCII literal. *)
Definition code_points (s : string) : list Z :=
  (λ c, Z.of_nat (nat_of_ascii c)) <$> list_ascii_of_string s.

Section WithScalar.

(** A metric value.  The logger never computes on it. *)
Context {scalar : Type}.

(** What a stored tensor record holds: [float_val] or [string_val]. *)
Inductive tensor : Type :=
| FloatVal (v : scalar)
| StringVal (bytes : list Z).

(** One record of the event log. *)
Record event : Type := {
  ev_tag : string;
  ev_step : Z;
  ev_tensor : tensor
}.

(** A call received by the summary writer. *)
Inductive writer_call : Type :=
| add_scalar (tag : string) (scalar_value : scalar) (global_step : Z)
| add_text (tag : string) (text_string : list Z) (global_step : Z)
| add_scalars (main_tag : string) (tag_scalar_dict : list (string * scalar))
    (global_step : Z) (walltime : option scalar)
| close_writer.

(** Modelled from the spec: the third-party summary writer the logger wraps.
    It is bound to a directory, remembers the calls it received and buffers
    the records they produce until it is flushed. *)
Record SummaryWriter : Type := {
  log_dir : string;
  calls : list writer_call;
  pending : list event
}.

(** The event-log directories on disk. *)
Local Abbreviation filesystem := (gmap string (list event)).

(** Modelled from the spec: [torchtnt.utils.loggers.tensorboard], the
    adapter under test.  It holds its path and a writer handle that is absent
    on every process but the one of rank zero. *)
Record TensorBoardLogger : Type := {
  path : string;
  writer : option SummaryWriter
}.

Definition received (c : writer_call) (produced : list event)
    (w : SummaryWriter) : SummaryWriter :=
  {| log_dir := log_dir w;
     calls := calls w ++ [c];
     pending := pending w ++ produced |}.

(** Modelled from the spec: the rank indicator, read from [RANK]; a process
    started without it is rank zero. *)
Definition get_global_rank (env : gmap string string) : result Z :=
  match env !! "RANK" with
  | Some s => py_int s
  | None => Ok 0
  end.

(** Modelled from the spec: the constructor reads the rank once and binds a
    writer to the path, creating the directory, only on rank zero. *)
Definition init (env : gmap string string) (path : string) (fs : filesystem)
    : result (TensorBoardLogger * filesystem) :=
  rank ← get_global_rank env;
  if decide (rank = 0) then
    Ok ({| path := path;
           writer := Some {| log_dir := path; calls := []; pending := [] |} |},
        <[path := default [] (fs !! path)]> fs)
  else Ok ({| path := path; writer := None |}, fs).

(** Modelled from the spec: [log] writes a scalar at a step. *)
Definition log (name : string) (data : scalar) (step : Z)
    (self : TensorBoardLogger) : TensorBoardLogger :=
  match writer self with
  | Some w =>
      {| path := path self;
         writer := Some (received (add_scalar name data step)
                           [{| ev_tag := name; ev_step := step;
                               ev_tensor := FloatVal data |}] w) |}
  | None => self
  end.

(** Modelled from the spec: [log_dict] writes every tagged scalar of the
    mapping at one step. *)
Definition log_dict (payload : list (string * scalar)) (step : Z)
    (self : TensorBoardLogger) : TensorBoardLogger :=
  foldl (λ l kv, log kv.1 kv.2 step l) self payload.

(** Modelled from the spec: [log_scalars] forwards its arguments to the
    writer.  The records the writer derives from them are left out. *)
Definition log_scalars (main_tag : string)
    (tag_scalar_dict : list (string * scalar)) (global_step : Z)
    (walltime : option scalar) (self : TensorBoardLogger) : TensorBoardLogger :=
  match writer self with
  | Some w =>
      {| path := path self;
         writer := Some (received
                           (add_scalars main_tag tag_scalar_dict global_step
                              walltime) [] w) |}
  | None => self
  end.

(** Modelled from the spec: [log_text] stores the UTF-8 bytes of the text
    under the tag the writer derives for text summaries. *)
Definition log_text (name : string) (data : list Z) (step : Z)
    (self : TensorBoardLogger) : result TensorBoardLogger :=
  match writer self with
  | Some w =>
      bytes ← str_encode data;
      Ok {| path := path self;
            writer := Some (received (add_text name data step)
                              [{| ev_tag := name +:+ "/text_summary";
                                  ev_step := step;
                                  ev_tensor := StringVal bytes |}] w) |}
  | None => Ok self
  end.

(** Modelled from the spec: [close] flushes the buffered records to the
    directory and releases the writer. *)
Definition close (self : TensorBoardLogger) (fs : filesystem)
    : TensorBoardLogger * filesystem :=
  match writer self with
  | Some w =>
      ({| path := path self; writer := None |},
       <[log_dir w := default [] (fs !! log_dir w) ++ pending w]> fs)
  | None => (self, fs)
  end.

(** A method call on the logger. *)
Inductive method_call : Type :=
| call_log (name : string) (data : scalar) (step : Z)
| call_log_dict (payload : list (string * scalar)) (step : Z)
| call_log_scalars (main_tag : string)
    (tag_scalar_dict : list (string * scalar)) (global_step : Z)
    (walltime : option scalar)
| call_log_text (name : string) (data : list Z) (step : Z)
| call_close.

Definition perform (c : method_call) (st : TensorBoardLogger * filesystem)
    : result (TensorBoardLogger * filesystem) :=
  match c with
  | call_log name data step => Ok (log name data step st.1, st.2)
  | call_log_dict payload step => Ok (log_dict payload step st.1, st.2)
  | call_log_scalars m d s w => Ok (log_scalars m d s w st.1, st.2)
  | call_log_text name data step =>
      l ← log_text name data step st.1; Ok (l, st.2)
  | call_close => Ok (close st.1 st.2)
  end.

Fixpoint perform_all (cs : list method_call)
    (st : TensorBoardLogger * filesystem)
    : result (TensorBoardLogger * filesystem) :=
  match cs with
  | [] => Ok st
  | c :: cs' => st' ← perform c st; perform_all cs' st'
  end.

(** A logger constructed on a path and the method calls made on it. *)
Definition session (env : gmap string string) (path : string)
    (fs : filesystem) (cs : list method_call)
    : result (TensorBoardLogger * filesystem) :=
  st ← init env path fs; perform_all cs st.

(** Modelled from the spec: the event accumulator.  [Reload] reads the
    records of a directory and [Tensors] returns those of one tag, in the
    order they were written. *)
Definition Tensors (fs : filesystem) (dir tag : string) : list event :=
  filter (λ e, ev_tag e = tag) (default [] (fs !! dir)).




(** The [log_text] calls of a sequence of texts and steps. *)
Definition log_text_calls (tag : string) (records : list (list Z * Z))
    : list method_call :=
  (λ r, call_log_text tag r.1 r.2) <$> records.

(** The record [log_text] buffers for an ASCII text, whose bytes are its
    code points. *)
Definition text_event (tag : string) (r : list Z * Z) : event :=
  {| ev_tag := tag +:+ "/text_summary"; ev_step := r.2;
     ev_tensor := StringVal r.1 |}.

(** The record [log_dict] buffers for one item of its mapping. *)
Definition dict_event (step : Z) (kv : string * scalar) : event :=
  {| ev_tag := kv.1; ev_step := step; ev_tensor := FloatVal kv.2 |}.


End WithScalar.

Arguments tensor : clear implicits.
Arguments event : clear implicits.
Arguments writer_call : clear implicits.
Arguments SummaryWriter : clear implicits.
Arguments TensorBoardLogger : clear implicits.
Arguments method_call : clear implicits.

Abbreviation filesystem scalar := (gmap string (list (event scalar))).


End TensorBoard.

(** ** Theorems *)

Section CompletionPredicates.
Import LoopUtils.

Lemma reached_spec (bound : option Z) (c : Z) :
  reached bound c = true ↔ ∃ x, bound = Some x ∧ c >= x.
Proof.
  destruct bound as [x|]; simpl.
  - rewrite Z.leb_le. split.
    + intros H. exists x. split; [reflexivity | lia].
    + intros (y & Hy & Hge). injection Hy as ->. lia.
  - split; [discriminate | intros (y & Hy & _); discriminate].
Qed.

(** C1: [_is_done] is true exactly when the step maximum is set and reached
    or the epoch maximum is set and reached; with both maximums [None] it is
    false whatever the counters are. *)
Theorem is_done_iff (progress : Progress) (max_epochs max_steps : option Z) :
  (_is_done progress max_epochs max_steps = true ↔
     (∃ s, max_steps = Some s ∧ num_steps_completed progress >= s) ∨
     (∃ e, max_epochs = Some e ∧ num_epochs_completed progress >= e))
  ∧ _is_done progress None None = false.
Proof.
  split; [| reflexivity].
  unfold _is_done. rewrite orb_true_iff, !reached_spec. reflexivity.
Qed.

(** C4: [_is_epoch_done] is the two-term disjunction over the optional step
    maximum and the optional per-epoch step maximum; it is a pure function
    of its three arguments. *)
Theorem is_epoch_done_iff (progress : Progress)
    (max_steps_per_epoch max_steps : option Z) :
  _is_epoch_done progress max_steps_per_epoch max_steps = true ↔
    (∃ s, max_steps = Some s ∧ num_steps_completed progress >= s) ∨
    (∃ k, max_steps_per_epoch = Some k ∧
          num_steps_completed_in_epoch progress >= k).
Proof.
  unfold _is_epoch_done. rewrite orb_true_iff, !reached_spec. reflexivity.
Qed.

End CompletionPredicates.

Section TrainingModeFacts.
Import TrainingMode.
Variable submodules : mod_id → list mod_id.

Local Abbreviation train := (TrainingMode.train submodules).
Local Abbreviation set_loop := (TrainingMode.set_loop submodules).
Local Abbreviation touched := (TrainingMode.touched submodules).
Local Abbreviation independent := (TrainingMode.independent submodules).

Lemma train_in (m x : mod_id) (mode : bool) (σ : store) :
  x ∈ m :: submodules m → train m mode σ x = mode.
Proof. intros Hx. unfold TrainingMode.train. by rewrite decide_True. Qed.

Lemma train_out (m x : mod_id) (mode : bool) (σ : store) :
  x ∉ m :: submodules m → train m mode σ x = σ x.
Proof. intros Hx. unfold TrainingMode.train. by rewrite decide_False. Qed.

Lemma touched_cons (p : string * mod_id) (items : module_dict) :
  touched (p :: items) = (p.2 :: submodules p.2) ++ touched items.
Proof. reflexivity. Qed.

Lemma elem_of_touched (x : mod_id) (items : module_dict) :
  x ∈ touched items ↔ ∃ p, p ∈ items ∧ x ∈ p.2 :: submodules p.2.
Proof.
  unfold TrainingMode.touched. rewrite list_elem_of_bind.
  split; intros (p & H1 & H2); exists p; done.
Qed.

(** The store after the loop: [mode] on everything some [train] wrote, the
    old flag elsewhere. *)
Lemma set_loop_store (items : module_dict) (mode : bool)
    (prior : gmap string bool) (σ : store) (x : mod_id) :
  (set_loop items mode prior σ).2 x =
    if decide (x ∈ touched items) then mode else σ x.
Proof.
  revert prior σ. induction items as [|[name m] rest IH]; intros prior σ.
  - cbn [TrainingMode.set_loop snd]. case_decide as Hx; [| done].
    by apply elem_of_nil in Hx.
  - cbn [TrainingMode.set_loop]. rewrite IH, touched_cons. cbn [snd].
    destruct (decide (x ∈ touched rest)) as [Hr|Hr].
    + rewrite decide_True; [done | set_solver].
    + destruct (decide (x ∈ m :: submodules m)) as [Hm|Hm].
      * rewrite train_in by done. rewrite decide_True; [done | set_solver].
      * rewrite train_out by done. rewrite decide_False; [done | set_solver].
Qed.

(** A name the loop does not visit keeps its entry. *)
Lemma set_loop_prior_other (items : module_dict) (mode : bool)
    (prior : gmap string bool) (σ : store) (name : string) :
  name ∉ items.*1 →
  (set_loop items mode prior σ).1 !! name = prior !! name.
Proof.
  revert prior σ. induction items as [|[n m] rest IH]; intros prior σ Hn.
  - done.
  - simpl in *. rewrite IH by set_solver.
    apply lookup_insert_ne. set_solver.
Qed.

Lemma independent_cons (p : string * mod_id) (items : module_dict) :
  independent (p :: items) → independent items.
Proof.
  unfold TrainingMode.independent. intros H.
  apply Forall_cons in H as [_ H].
  eapply Forall_impl; [exact H |]. intros q Hq.
  by apply Forall_cons in Hq as [_ Hq].
Qed.

Lemma independent_elim (items : module_dict) (p q : string * mod_id) :
  independent items → p ∈ items → q ∈ items → p.1 ≠ q.1 →
  q.2 ∉ p.2 :: submodules p.2.
Proof.
  unfold TrainingMode.independent. rewrite Forall_forall. intros H Hp Hq.
  specialize (H p Hp). rewrite Forall_forall in H. by apply H.
Qed.

Lemma NoDup_keys_ne (n name : string) (m m' : mod_id) (rest : module_dict) :
  NoDup ((n, m) :: rest).*1 → (name, m') ∈ rest → n ≠ name.
Proof.
  simpl. intros Hnd Hin ->. apply NoDup_cons in Hnd as [Hn _].
  apply Hn. apply list_elem_of_fmap. by exists (name, m').
Qed.

(** With distinct keys and independent modules each saved flag is the one
    the module had when the loop started. *)
Lemma set_loop_prior (items : module_dict) (mode : bool)
    (prior : gmap string bool) (σ : store) (name : string) (m : mod_id) :
  NoDup items.*1 → independent items → (name, m) ∈ items →
  (set_loop items mode prior σ).1 !! name = Some (σ m).
Proof.
  revert prior σ. induction items as [|[n0 m0] rest IH];
    intros prior σ Hnd Hind Hin.
  - by apply elem_of_nil in Hin.
  - apply elem_of_cons in Hin as [Heq|Hin].
    + injection Heq as -> ->. simpl.
      rewrite set_loop_prior_other.
      * apply lookup_insert_eq.
      * simpl in Hnd. by apply NoDup_cons in Hnd as [? _].
    + simpl. rewrite IH; [| by apply NoDup_cons in Hnd as [_ ?]
                          | by eapply independent_cons | done].
      f_equal. apply train_out.
      apply (independent_elim ((n0, m0) :: rest) (n0, m0) (name, m));
        [done | set_solver | set_solver |].
      simpl. by eapply NoDup_keys_ne.
Qed.

Lemma reset_untouched (items : module_dict) (prior : gmap string bool)
    (σ : store) (x : mod_id) :
  x ∉ touched items →
  _reset_module_training_mode submodules items prior σ x = σ x.
Proof.
  revert σ. induction items as [|[n m] rest IH]; intros σ Hx.
  - done.
  - rewrite touched_cons in Hx. simpl in *.
    rewrite IH by set_solver.
    destruct (prior !! n); [| done]. apply train_out. set_solver.
Qed.

(** With distinct keys and independent modules the reset leaves on each
    module the flag saved under its name. *)
Lemma reset_flag (items : module_dict) (prior : gmap string bool)
    (σ : store) (name : string) (m : mod_id) (b : bool) :
  NoDup items.*1 → independent items → (name, m) ∈ items →
  prior !! name = Some b →
  _reset_module_training_mode submodules items prior σ m = b.
Proof.
  revert σ. induction items as [|[n0 m0] rest IH];
    intros σ Hnd Hind Hin Hb.
  - by apply elem_of_nil in Hin.
  - apply elem_of_cons in Hin as [Heq|Hin].
    + injection Heq as -> ->. simpl. rewrite Hb.
      rewrite reset_untouched; [apply train_in; set_solver |].
      rewrite elem_of_touched. intros (q & Hq & Hm0).
      destruct q as [nq mq]. simpl in Hm0.
      refine (independent_elim ((n0, m0) :: rest) (nq, mq) (n0, m0)
                Hind _ _ _ Hm0); [set_solver | set_solver |].
      simpl. intros ->. by eapply (NoDup_keys_ne n0 n0 m0 mq rest).
    + simpl. apply IH; [by apply NoDup_cons in Hnd as [_ ?]
                        | by eapply independent_cons | done | done].
Qed.

End TrainingModeFacts.

Section TrainingModeClaims.
Import TrainingMode.

(** Where the saved flags are the prior ones: after
    [_set_module_training_mode] every module of the mapping has the flag
    [mode]; and when the keys are distinct and no module of the mapping is,
    or lies below, a module held under another name, the returned
    dictionary maps each name to the flag its module had before the
    call. *)
Theorem set_module_training_mode_spec (submodules : mod_id → list mod_id)
    (modules : module_dict) (mode : bool) (σ : store) :
  (∀ name m, (name, m) ∈ modules →
     (_set_module_training_mode submodules modules mode σ).2 m = mode)
  ∧ (NoDup modules.*1 → independent submodules modules →
     prior_is_flag_before_call submodules modules mode σ).
Proof.
  split.
  - intros name m Hin. unfold _set_module_training_mode.
    rewrite set_loop_store, decide_True; [done |].
    apply elem_of_touched. exists (name, m). split; [done | set_solver].
  - intros Hnd Hind name m Hin. by apply set_loop_prior.
Qed.

Lemma example_modules_independent :
  independent example_hierarchy example_modules.
Proof. compute_done. Qed.

Lemma example_modules_NoDup : NoDup example_modules.*1.
Proof. compute_done. Qed.

Lemma set_module_training_mode_spec_witness :
  let r := _set_module_training_mode example_hierarchy example_modules true
             example_store in
  r.2 0%nat = true ∧ r.2 2%nat = true ∧
  r.1 !! "model" = Some false ∧ r.1 !! "head" = Some true.
Proof.
  pose proof (set_module_training_mode_spec example_hierarchy example_modules
                true example_store) as [Hflag Hprior].
  specialize (Hprior example_modules_NoDup example_modules_independent).
  split; [| split; [| split]].
  - apply (Hflag "model"). apply list_elem_of_here.
  - apply (Hflag "head"). apply list_elem_of_further, list_elem_of_here.
  - apply (Hprior "model" 0%nat). apply list_elem_of_here.
  - apply (Hprior "head" 2%nat). apply list_elem_of_further, list_elem_of_here.
Defined.

(** C3: the defect of [_set_module_training_mode].  One module object
    under two names, in training mode, switched to evaluation mode: the
    entry saved for the second name is the flag the first iteration has
    already written, not the prior one.  The same happens to a child held
    under a name of its own after its parent: the parent's [train] call
    writes the child before the child's flag is saved. *)
Theorem set_module_training_mode_saves_written_flag :
  let r := _set_module_training_mode (λ _, []) aliased_modules false
             all_training in
  let r' := _set_module_training_mode example_hierarchy nested_modules false
              all_training in
  NoDup aliased_modules.*1 ∧ NoDup nested_modules.*1
  ∧ r.1 !! "a" = Some true ∧ r.1 !! "b" = Some false
  ∧ r'.1 !! "model" = Some true ∧ r'.1 !! "head" = Some false
  ∧ ¬ prior_is_flag_before_call (λ _, []) aliased_modules false all_training
  ∧ ¬ prior_is_flag_before_call example_hierarchy nested_modules false
        all_training.
Proof.
  intros r r'.
  split; [compute_done |]. split; [compute_done |].
  split; [reflexivity |]. split; [reflexivity |].
  split; [reflexivity |]. split; [reflexivity |].
  split.
  - intros H. specialize (H "b" 0%nat).
    assert (Hin : ("b", 0%nat) ∈ aliased_modules)
      by apply list_elem_of_further, list_elem_of_here.
    specialize (H Hin). vm_compute in H. discriminate H.
  - intros H. specialize (H "head" 1%nat).
    assert (Hin : ("head", 1%nat) ∈ nested_modules)
      by apply list_elem_of_further, list_elem_of_here.
    specialize (H Hin). vm_compute in H. discriminate H.
Qed.

(** Where the round trip holds: with distinct keys and no module of the
    mapping equal to, or below, a module held under another name, setting
    the mode and then resetting with the returned map leaves every module
    of the mapping with the flag it had before. *)
Theorem set_reset_roundtrip (submodules : mod_id → list mod_id)
    (modules : module_dict) (mode : bool) (σ : store) :
  NoDup modules.*1 → independent submodules modules →
  restores_every_module submodules modules mode σ.
Proof.
  intros Hnd Hind name m Hin.
  apply (reset_flag submodules modules _ _ name); [done | done | done |].
  by apply set_loop_prior.
Qed.

Lemma set_reset_roundtrip_witness :
  NoDup example_modules.*1 ∧
  independent example_hierarchy example_modules ∧
  restores_every_module example_hierarchy example_modules true example_store.
Proof.
  split; [exact example_modules_NoDup |].
  split; [exact example_modules_independent |].
  apply set_reset_roundtrip;
    [exact example_modules_NoDup | exact example_modules_independent].
Defined.

(** C2: the defect of the round trip.  On the same two mappings the reset
    trains the module first with the flag saved under the first name and
    then with the one saved under the second, which is the new mode: the
    shared module, and the child held under its own name, are left in
    evaluation mode although they started in training mode. *)
Theorem set_reset_leaves_new_mode :
  let r := _set_module_training_mode (λ _, []) aliased_modules false
             all_training in
  let r' := _set_module_training_mode example_hierarchy nested_modules false
              all_training in
  NoDup aliased_modules.*1 ∧ NoDup nested_modules.*1
  ∧ all_training 0%nat = true
  ∧ _reset_module_training_mode (λ _, []) aliased_modules r.1 r.2 0%nat
    = false
  ∧ all_training 1%nat = true
  ∧ _reset_module_training_mode example_hierarchy nested_modules r'.1 r'.2
      1%nat = false
  ∧ ¬ restores_every_module (λ _, []) aliased_modules false all_training
  ∧ ¬ restores_every_module example_hierarchy nested_modules false
        all_training.
Proof.
  intros r r'.
  split; [compute_done |]. split; [compute_done |].
  split; [reflexivity |]. split; [reflexivity |].
  split; [reflexivity |]. split; [reflexivity |].
  split.
  - intros H. specialize (H "a" 0%nat).
    assert (Hin : ("a", 0%nat) ∈ aliased_modules) by apply list_elem_of_here.
    specialize (H Hin). vm_compute in H. discriminate H.
  - intros H. specialize (H "head" 1%nat).
    assert (Hin : ("head", 1%nat) ∈ nested_modules)
      by apply list_elem_of_further, list_elem_of_here.
    specialize (H Hin). vm_compute in H. discriminate H.
Qed.

End TrainingModeClaims.

Section StepSignatureClaims.
Import StepSignature.

Lemma getitem_Some {V : Type} (d : gmap string V) (key : string) (v : V) :
  d !! key = Some v → getitem d key = Ok v.
Proof. intros H. unfold getitem. by rewrite H. Qed.

(** What the helper returns when the annotation is there. *)
Lemma step_requires_iterator_annotated (step_func : callable) (t : annotation) :
  arg_annotations step_func !! "data" = Some t →
  _step_requires_iterator step_func =
    ([], Ok (bool_decide (get_origin t = Some collections_abc_Iterator))).
Proof.
  intros Ht. unfold _step_requires_iterator. simpl.
  rewrite bool_decide_eq_false_2 by (rewrite Ht; discriminate).
  by rewrite (getitem_Some _ _ t Ht).
Qed.

(** C5: without a ["data"] annotation the helper logs one warning and returns
    [False]; it returns [True] exactly when the annotation is present and its
    origin is [collections.abc.Iterator]; and it raises in neither case. *)
Theorem step_requires_iterator_spec (step_func : callable) :
  (arg_annotations step_func !! "data" = None →
     ∃ message,
       _step_requires_iterator step_func =
         ([Warning message (arg_annotations step_func)], Ok false))
  ∧ ((_step_requires_iterator step_func).2 = Ok true ↔
       ∃ t, arg_annotations step_func !! "data" = Some t ∧
            get_origin t = Some collections_abc_Iterator)
  ∧ (∃ b, (_step_requires_iterator step_func).2 = Ok b).
Proof.
  destruct (arg_annotations step_func !! "data") as [t|] eqn:Ht.
  - rewrite (step_requires_iterator_annotated step_func t Ht). simpl.
    split; [discriminate |]. split; [| by eexists].
    split.
    + intros [= Hb]. apply bool_decide_eq_true in Hb. by exists t.
    + intros (t' & [= <-] & Ho). f_equal. by apply bool_decide_eq_true.
  - assert (Hres : ∃ message, _step_requires_iterator step_func =
              ([Warning message (arg_annotations step_func)], Ok false)).
    { unfold _step_requires_iterator. simpl.
      rewrite bool_decide_eq_true_2 by done. by eexists. }
    destruct Hres as [message Hres]. rewrite Hres. simpl.
    split; [by exists message |]. split; [| by eexists].
    split; [discriminate | intros (t' & Hn & _); discriminate].
Qed.

End StepSignatureClaims.

Section SamplerEpochClaims.
Import SamplerEpoch.

Lemma set_epoch_other (s x : sampler_id) (epoch : Z) (h : heap) :
  x ≠ s → set_epoch s epoch h x = h x.
Proof. intros Hx. unfold set_epoch. by rewrite decide_False. Qed.

(** C10: unless the argument is a [DataLoader] whose sampler is a
    [DistributedSampler], the helper returns normally, calls nothing and
    leaves the heap as it was; in that one case it makes the single call
    [sampler.set_epoch(current_epoch)], which writes that sampler only. *)
Theorem maybe_set_distributed_sampler_epoch_spec (dataloader : iterable)
    (current_epoch : Z) (h : heap) :
  (¬ has_distributed_sampler dataloader h →
     _maybe_set_distributed_sampler_epoch dataloader current_epoch h
       = Ok (h, []))
  ∧ (∀ s e, dataloader = DataLoader s → h s = DistributedSampler e →
       ∃ h', _maybe_set_distributed_sampler_epoch dataloader current_epoch h
               = Ok (h', [SetEpoch s current_epoch])
             ∧ h' s = DistributedSampler current_epoch
             ∧ ∀ x, x ≠ s → h' x = h x)
  ∧ (∃ r, _maybe_set_distributed_sampler_epoch dataloader current_epoch h
            = Ok r).
Proof.
  unfold _maybe_set_distributed_sampler_epoch, has_distributed_sampler.
  destruct dataloader as [s|]; simpl.
  - destruct (h s) as [e|] eqn:Hs; simpl.
    + split; [intros Hno; exfalso; apply Hno; by exists s, e |].
      split; [| by eexists].
      intros s' e' [= <-] _. eexists. split; [reflexivity |].
      split.
      * unfold set_epoch. by rewrite decide_True.
      * intros x Hx. by apply set_epoch_other.
    + split; [done |]. split; [| by eexists].
      intros s' e' [= <-] He. congruence.
  - split; [done |]. split; [| by eexists]. intros s e Hd. discriminate Hd.
Qed.

End SamplerEpochClaims.

Section TensorBoardFacts.
Import TensorBoard.
Context {scalar : Type}.

Lemma log_without_writer (name : string) (data : scalar) (step : Z)
    (self : TensorBoardLogger scalar) :
  writer self = None → log name data step self = self.
Proof. intros H. unfold log. by rewrite H. Qed.

Lemma log_dict_without_writer (payload : list (string * scalar)) (step : Z)
    (self : TensorBoardLogger scalar) :
  writer self = None → log_dict payload step self = self.
Proof.
  intros H. unfold log_dict. induction payload as [|kv rest IH]; [done |].
  simpl. by rewrite log_without_writer.
Qed.

(** Without a writer no method does anything. *)
Lemma perform_without_writer (c : method_call scalar)
    (self : TensorBoardLogger scalar) (fs : filesystem scalar) :
  writer self = None → perform c (self, fs) = Ok (self, fs).
Proof.
  intros H. destruct c; simpl.
  - by rewrite log_without_writer.
  - by rewrite log_dict_without_writer.
  - unfold log_scalars. by rewrite H.
  - unfold log_text. by rewrite H.
  - unfold close. by rewrite H.
Qed.

Lemma perform_all_without_writer (cs : list (method_call scalar))
    (self : TensorBoardLogger scalar) (fs : filesystem scalar) :
  writer self = None → perform_all cs (self, fs) = Ok (self, fs).
Proof.
  intros H. induction cs as [|c cs IH]; [done |].
  simpl. rewrite perform_without_writer by done. exact IH.
Qed.

End TensorBoardFacts.

Section Utf8Facts.
Import TensorBoard.





End Utf8Facts.

Section EventLogFacts.
Import TensorBoard.
Context {scalar : Type}.




End EventLogFacts.

Section TensorBoardClaims.
Import TensorBoard.
Context {scalar : Type}.

(** C6: constructed while [RANK] holds a non-zero integer, the logger has no
    writer, the constructor leaves the disk as it was, and so does every
    sequence of method calls on that logger. *)
Theorem rank_nonzero_no_writer (env : gmap string string) (p s : string)
    (rank : Z) (fs : filesystem scalar) :
  env !! "RANK" = Some s → py_int s = Ok rank → rank ≠ 0 →
  ∃ logger, init env p fs = Ok (logger, fs)
            ∧ writer logger = None
            ∧ ∀ cs, perform_all cs (logger, fs) = Ok (logger, fs).
Proof.
  intros Henv Hint Hrank.
  exists {| path := p; writer := None |}. split; [| split; [done |]].
  - unfold init, get_global_rank. rewrite Henv, Hint. simpl.
    by rewrite decide_False.
  - intros cs. by apply perform_all_without_writer.
Qed.

(** C7: on a logger that has a writer, [log_scalars] makes exactly one call
    on it, [add_scalars] with the four arguments as they were given. *)
Theorem log_scalars_forwards (main_tag : string)
    (tag_scalar_dict : list (string * scalar)) (global_step : Z)
    (walltime : option scalar) (self : TensorBoardLogger scalar)
    (w : SummaryWriter scalar) :
  writer self = Some w →
  ∃ w', writer (log_scalars main_tag tag_scalar_dict global_step walltime self)
          = Some w'
        ∧ calls w'
          = calls w ++ [add_scalars main_tag tag_scalar_dict global_step
                          walltime].
Proof.
  intros Hw. unfold log_scalars. rewrite Hw. by eexists.
Qed.



End TensorBoardClaims.

Section TensorBoardWitnesses.
Import TensorBoard.

Lemma rank_nonzero_no_writer_witness :
  ∃ logger : TensorBoardLogger Z,
    init {["RANK" := "1"]} "/tmp/log" ∅ = Ok (logger, ∅)
    ∧ writer logger = None
    ∧ ∀ cs, perform_all cs (logger, ∅) = Ok (logger, ∅).
Proof.
  apply (rank_nonzero_no_writer (scalar := Z) {["RANK" := "1"]} "/tmp/log"
           "1" 1 ∅).
  - reflexivity.
  - reflexivity.
  - lia.
Defined.

Lemma log_scalars_forwards_witness :
  ∃ w', writer (log_scalars "tnt_metrics" [("x", 0); ("y", 1)] 1 (Some 2)
                  {| path := "/tmp";
                     writer := Some {| log_dir := "/tmp"; calls := [];
                                       pending := [] |} |})
          = Some w'
        ∧ calls w'
          = [] ++ [add_scalars "tnt_metrics" [("x", 0); ("y", 1)] 1 (Some 2)].
Proof.
  apply (log_scalars_forwards (scalar := Z) "tnt_metrics"
           [("x", 0); ("y", 1)] 1 (Some 2)
           {| path := "/tmp";
              writer := Some {| log_dir := "/tmp"; calls := [];
                                pending := [] |} |}
           {| log_dir := "/tmp"; calls := []; pending := [] |}).
  reflexivity.
Defined.





End TensorBoardWitnesses.

(** ** Further properties of the completion predicates *)

Section CompletionOrder.
Import LoopUtils.

Lemma reached_mono (bound : option Z) (c c' : Z) :
  c ≤ c' → reached bound c = true → reached bound c' = true.
Proof.
  intros Hle. rewrite !reached_spec. intros (x & Hx & Hge).
  exists x. split; [done | lia].
Qed.

Lemma reached_tighter (b b' : option Z) (c : Z) :
  tighter b' b → reached b c = true → reached b' c = true.
Proof.
  intros Ht. rewrite !reached_spec. intros (x & -> & Hge).
  destruct Ht as (x' & -> & Hle). exists x'. split; [done | lia].
Qed.

(** X1: a run or an epoch that is done stays done while the counters grow. *)
Theorem done_stays_done (p p' : Progress)
    (max_epochs max_steps max_steps_per_epoch : option Z) :
  at_least p p' →
  (_is_done p max_epochs max_steps = true →
   _is_done p' max_epochs max_steps = true)
  ∧ (_is_epoch_done p max_steps_per_epoch max_steps = true →
     _is_epoch_done p' max_steps_per_epoch max_steps = true).
Proof.
  intros (He & Hs & Hi). unfold _is_done, _is_epoch_done.
  rewrite !orb_true_iff. split; intros [H|H];
    (left + right); by eapply reached_mono.
Qed.

Lemma done_stays_done_witness :
  let p := {| num_epochs_completed := 1; num_steps_completed := 10;
              num_steps_completed_in_epoch := 4 |} in
  let p' := {| num_epochs_completed := 2; num_steps_completed := 13;
               num_steps_completed_in_epoch := 4 |} in
  at_least p p'
  ∧ (_is_done p None (Some 10) = true → _is_done p' None (Some 10) = true)
  ∧ (_is_epoch_done p (Some 4) None = true →
     _is_epoch_done p' (Some 4) None = true).
Proof.
  intros p p'.
  assert (H : at_least p p') by (unfold at_least; simpl; lia).
  split; [exact H |]. exact (done_stays_done p p' None (Some 10) (Some 4) H).
Defined.

(** X2: setting a maximum where there was none, or lowering one, never turns a
    finished run or epoch into an unfinished one. *)
Theorem tighter_maximums_keep_done (p : Progress)
    (max_epochs max_steps max_steps_per_epoch : option Z)
    (max_epochs' max_steps' max_steps_per_epoch' : option Z) :
  tighter max_epochs' max_epochs → tighter max_steps' max_steps →
  tighter max_steps_per_epoch' max_steps_per_epoch →
  (_is_done p max_epochs max_steps = true →
   _is_done p max_epochs' max_steps' = true)
  ∧ (_is_epoch_done p max_steps_per_epoch max_steps = true →
     _is_epoch_done p max_steps_per_epoch' max_steps' = true).
Proof.
  intros He Hs Hi. unfold _is_done, _is_epoch_done.
  rewrite !orb_true_iff. split; intros [H|H];
    (left + right); by eapply reached_tighter.
Qed.

Lemma tighter_maximums_keep_done_witness :
  let p := {| num_epochs_completed := 3; num_steps_completed := 30;
              num_steps_completed_in_epoch := 0 |} in
  tighter (Some 2) (Some 3) ∧ tighter (Some 100) None ∧ tighter None None
  ∧ (_is_done p (Some 3) None = true → _is_done p (Some 2) (Some 100) = true)
  ∧ (_is_epoch_done p None None = true →
     _is_epoch_done p None (Some 100) = true).
Proof.
  intros p.
  assert (H1 : tighter (Some 2) (Some 3)) by (exists 2; split; [done | lia]).
  assert (H2 : tighter (Some 100) None) by exact I.
  assert (H3 : tighter (None : option Z) None) by exact I.
  split; [exact H1 |]. split; [exact H2 |]. split; [exact H3 |].
  exact (tighter_maximums_keep_done p (Some 3) None None (Some 2) (Some 100)
           None H1 H2 H3).
Defined.

(** X3: the step maximum is shared: with no other maximum the two predicates
    agree, and once it is reached both the run and the epoch are done
    whatever the other maximums are. *)
Theorem max_steps_ends_run_and_epoch (p : Progress) (max_steps : option Z) :
  _is_done p None max_steps = _is_epoch_done p None max_steps
  ∧ (_is_done p None max_steps = true →
     ∀ max_epochs max_steps_per_epoch,
       _is_done p max_epochs max_steps = true
       ∧ _is_epoch_done p max_steps_per_epoch max_steps = true).
Proof.
  unfold _is_done, _is_epoch_done. simpl. rewrite orb_false_r.
  split; [done |]. intros H me mspe. by rewrite H.
Qed.

(** X4: each call reports exactly one key, in the [torchtnt.framework.]
    name space, and two entry points are never reported under one key. *)
Theorem log_api_usage_key_per_entry_point (e e' : string)
    (calls : list string) :
  (∃ key, _log_api_usage e calls = calls ++ [key]
          ∧ String.prefix "torchtnt.framework." key = true
          ∧ String.length key = (19 + String.length e)%nat)
  ∧ (_log_api_usage e calls = _log_api_usage e' calls → e = e').
Proof.
  split.
  - exists (api_usage_key e). split; [done |]. split.
    + unfold api_usage_key. vm_compute. by destruct e.
    + done.
  - unfold _log_api_usage. intros H. apply app_inv_head in H.
    assert (Hk : api_usage_key e = api_usage_key e') by congruence.
    vm_compute in Hk. congruence.
Qed.

End CompletionOrder.

(** ** Further properties of the training-mode helpers *)

Section TrainingModeEffects.
Import TrainingMode.
Variable submodules : mod_id → list mod_id.

Local Abbreviation train := (TrainingMode.train submodules).
Local Abbreviation set_loop := (TrainingMode.set_loop submodules).
Local Abbreviation touched := (TrainingMode.touched submodules).
Local Abbreviation independent := (TrainingMode.independent submodules).
Local Abbreviation set_mode :=
  (TrainingMode._set_module_training_mode submodules).
Local Abbreviation reset_mode :=
  (TrainingMode._reset_module_training_mode submodules).
Local Abbreviation last_write := (TrainingMode.last_write submodules).

Lemma set_loop_keys (items : module_dict) (mode : bool)
    (prior : gmap string bool) (σ : store) (name : string) :
  is_Some ((set_loop items mode prior σ).1 !! name)
  ↔ is_Some (prior !! name) ∨ name ∈ items.*1.
Proof.
  revert prior σ. induction items as [|[n m] rest IH]; intros prior σ.
  - simpl. rewrite elem_of_nil. tauto.
  - cbn [TrainingMode.set_loop]. rewrite IH. rewrite fmap_cons. cbn [fst].
    rewrite elem_of_cons. destruct (decide (name = n)) as [->|Hne].
    + rewrite lookup_insert_eq. split; [auto | intros _; left; by eexists].
    + rewrite lookup_insert_ne by done. tauto.
Qed.

Lemma set_loop_saves_current (items : module_dict) (mode : bool)
    (prior : gmap string bool) (σ : store) (name : string) :
  (∀ x, x ∈ touched items → σ x = mode) → name ∈ items.*1 →
  (set_loop items mode prior σ).1 !! name = Some mode.
Proof.
  revert prior σ. induction items as [|[n m] rest IH]; intros prior σ Hσ Hin.
  - by apply elem_of_nil in Hin.
  - cbn [TrainingMode.set_loop].
    destruct (decide (name ∈ rest.*1)) as [Hr|Hr].
    + apply IH; [| done]. intros x Hx. unfold TrainingMode.train.
      case_decide; [done |]. apply Hσ. rewrite touched_cons. set_solver.
    + rewrite set_loop_prior_other by done.
      rewrite fmap_cons in Hin. cbn [fst] in Hin.
      apply elem_of_cons in Hin as [->|Hin]; [| done].
      rewrite lookup_insert_eq. f_equal. apply Hσ.
      rewrite touched_cons. cbn [snd]. set_solver.
Qed.

Lemma reset_last_write (items : module_dict) (prior : gmap string bool)
    (σ : store) (x : mod_id) :
  reset_mode items prior σ x = default (σ x) (last_write items prior x).
Proof.
  revert σ. induction items as [|[n m] rest IH]; intros σ.
  - done.
  - cbn [TrainingMode._reset_module_training_mode TrainingMode.last_write].
    rewrite IH. destruct (last_write rest prior x) as [b|]; [done |].
    destruct (prior !! n) as [b|]; [| done]. cbn [default].
    unfold TrainingMode.train. by case_decide.
Qed.

Lemma reset_agreed (items : module_dict) (prior : gmap string bool)
    (σ : store) (x : mod_id) (b : bool) :
  (∀ n m, (n, m) ∈ items → x ∈ m :: submodules m → prior !! n = Some b) →
  x ∈ touched items →
  reset_mode items prior σ x = b.
Proof.
  revert σ. induction items as [|[n m] rest IH]; intros σ Hall Hx.
  - by apply elem_of_nil in Hx.
  - cbn [TrainingMode._reset_module_training_mode].
    destruct (decide (x ∈ touched rest)) as [Hr|Hr].
    + apply IH; [| done]. intros n' m' Hin. apply Hall. set_solver.
    + rewrite reset_untouched by done.
      rewrite touched_cons in Hx. cbn [snd] in Hx.
      apply elem_of_app in Hx as [Hx|Hx]; [| done].
      rewrite (Hall n m) by (done || set_solver). by apply train_in.
Qed.

Lemma NoDup_keys_functional (items : module_dict) (n : string)
    (m m' : mod_id) :
  NoDup items.*1 → (n, m) ∈ items → (n, m') ∈ items → m = m'.
Proof.
  induction items as [|[n0 m0] rest IH]; intros Hnd H1 H2.
  - by apply elem_of_nil in H1.
  - apply elem_of_cons in H1 as [H1|H1]; apply elem_of_cons in H2 as [H2|H2].
    + congruence.
    + injection H1 as <- <-.
      by destruct (NoDup_keys_ne n n m m' rest Hnd H2).
    + injection H2 as <- <-.
      by destruct (NoDup_keys_ne n n m' m rest Hnd H1).
    + apply IH; [| done | done]. simpl in Hnd.
      by apply NoDup_cons in Hnd as [_ ?].
Qed.

(** X5: the returned dictionary has exactly the names of the mapping as
    its keys. *)
Theorem set_module_training_mode_keys (modules : module_dict) (mode : bool)
    (σ : store) (name : string) :
  is_Some ((set_mode modules mode σ).1 !! name) ↔ name ∈ modules.*1.
Proof.
  unfold TrainingMode._set_module_training_mode. rewrite set_loop_keys.
  rewrite lookup_empty. split; [| auto].
  intros [[? [=]]|H]; done.
Qed.

(** X6: after [_set_module_training_mode] every module of the mapping and
    every module below one is in the requested mode, and no other module's
    flag has changed. *)
Theorem set_module_training_mode_store (modules : module_dict) (mode : bool)
    (σ : store) (x : mod_id) :
  ((∃ name m, (name, m) ∈ modules ∧ x ∈ m :: submodules m) →
   (set_mode modules mode σ).2 x = mode)
  ∧ ((∀ name m, (name, m) ∈ modules → x ∉ m :: submodules m) →
     (set_mode modules mode σ).2 x = σ x).
Proof.
  unfold TrainingMode._set_module_training_mode. rewrite set_loop_store.
  split.
  - intros (name & m & Hin & Hx). rewrite decide_True; [done |].
    apply elem_of_touched. by exists (name, m).
  - intros Hout. rewrite decide_False; [done |].
    rewrite elem_of_touched. intros ([name m] & Hin & Hx).
    by apply (Hout name m).
Qed.

(** X7: a second [_set_module_training_mode] with the same mode changes no
    flag and returns the requested mode, not the original flag, under
    every name. *)
Theorem set_module_training_mode_twice (modules : module_dict) (mode : bool)
    (σ : store) :
  let r1 := set_mode modules mode σ in
  let r2 := set_mode modules mode r1.2 in
  (∀ name, name ∈ modules.*1 → r2.1 !! name = Some mode)
  ∧ (∀ x, r2.2 x = r1.2 x).
Proof.
  intros r1 r2. subst r1 r2. split.
  - intros name Hin. unfold TrainingMode._set_module_training_mode at 1.
    apply set_loop_saves_current; [| done].
    intros x Hx. unfold TrainingMode._set_module_training_mode.
    rewrite set_loop_store. by rewrite decide_True.
  - intros x. unfold TrainingMode._set_module_training_mode.
    rewrite !set_loop_store. by case_decide.
Qed.

(** X8: [_reset_module_training_mode] leaves a module's flag alone unless
    the module is, or lies below, a module whose name has a saved mode. *)
Theorem reset_module_training_mode_frame (modules : module_dict)
    (prior_modes : gmap string bool) (σ : store) (x : mod_id) :
  (∀ name m, (name, m) ∈ modules → is_Some (prior_modes !! name) →
             x ∉ m :: submodules m) →
  reset_mode modules prior_modes σ x = σ x.
Proof.
  intros Hout. rewrite reset_last_write.
  assert (Hlw : last_write modules prior_modes x = None); [| by rewrite Hlw].
  induction modules as [|[n m] rest IH]; [done |].
  cbn [TrainingMode.last_write]. rewrite IH.
  - destruct (prior_modes !! n) as [b|] eqn:Hn; [| done].
    rewrite decide_False; [done |]. apply (Hout n m); [set_solver |].
    by rewrite Hn.
  - intros name m' Hin. apply Hout. set_solver.
Qed.

(** X9: resetting twice with the same saved modes is the same as resetting
    once. *)
Theorem reset_module_training_mode_idempotent (modules : module_dict)
    (prior_modes : gmap string bool) (σ : store) (x : mod_id) :
  reset_mode modules prior_modes (reset_mode modules prior_modes σ) x
  = reset_mode modules prior_modes σ x.
Proof.
  rewrite (reset_last_write modules prior_modes (reset_mode _ _ _)).
  rewrite reset_last_write.
  by destruct (last_write modules prior_modes x).
Qed.

(** X10: the modes saved by [_set_module_training_mode] restore every module
    of the mapping whatever the flags have become in between. *)
Theorem reset_restores_from_any_store (modules : module_dict) (mode : bool)
    (σ σ' : store) (name : string) (m : mod_id) :
  NoDup modules.*1 → independent modules → (name, m) ∈ modules →
  reset_mode modules (set_mode modules mode σ).1 σ' m = σ m.
Proof.
  intros Hnd Hind Hin.
  apply (reset_flag submodules modules _ σ' name m); [done | done | done |].
  by apply set_loop_prior.
Qed.

(** X11: a module below a module of the mapping is not restored to its own
    flag: after set and reset it carries the original flag of the module
    it lies below. *)
Theorem reset_gives_submodule_parent_flag (modules : module_dict)
    (mode : bool) (σ : store) (name : string) (m x : mod_id) :
  NoDup modules.*1 → independent modules → (name, m) ∈ modules →
  x ∈ submodules m →
  (∀ name' m', (name', m') ∈ modules → name' ≠ name →
               x ∉ m' :: submodules m') →
  let r := set_mode modules mode σ in
  reset_mode modules r.1 r.2 x = σ m.
Proof.
  intros Hnd Hind Hin Hx Hothers r. subst r.
  apply reset_agreed.
  - intros n' m' Hin' Hx'. destruct (decide (n' = name)) as [->|Hne].
    + assert (m' = m) as -> by by eapply NoDup_keys_functional.
      by apply set_loop_prior.
    + by destruct (Hothers n' m').
  - apply elem_of_touched. exists (name, m). split; [done |]. set_solver.
Qed.

(** X12: when every module below a module of the mapping starts with that
    module's flag, set followed by reset restores the flag of every module
    there is, inside the mapping or not. *)
Theorem set_reset_restores_whole_store (modules : module_dict) (mode : bool)
    (σ : store) (x : mod_id) :
  NoDup modules.*1 → independent modules →
  flags_uniform submodules modules σ →
  let r := set_mode modules mode σ in
  reset_mode modules r.1 r.2 x = σ x.
Proof.
  intros Hnd Hind Huni r. subst r.
  destruct (decide (x ∈ touched modules)) as [Hx|Hx].
  - apply reset_agreed; [| done].
    intros n m Hin Hxm. unfold TrainingMode._set_module_training_mode.
    rewrite (set_loop_prior submodules modules mode ∅ σ n m) by done.
    f_equal. apply elem_of_cons in Hxm as [->|Hxm]; [done |].
    symmetry. by apply (Huni n m x).
  - rewrite reset_untouched by done.
    unfold TrainingMode._set_module_training_mode.
    rewrite set_loop_store. by rewrite decide_False.
Qed.

End TrainingModeEffects.

Section TrainingModeEffectsWitnesses.
Import TrainingMode.

Lemma example_store_uniform :
  flags_uniform example_hierarchy example_modules example_store.
Proof.
  intros name m x Hin Hx.
  apply elem_of_cons in Hin as [[= -> ->]|Hin].
  - apply elem_of_cons in Hx as [->|Hx]; [done |]. by apply elem_of_nil in Hx.
  - apply elem_of_cons in Hin as [[= -> ->]|Hin].
    + by apply elem_of_nil in Hx.
    + by apply elem_of_nil in Hin.
Qed.

Lemma head_only_misses_model (name : string) (m : mod_id) :
  (name, m) ∈ example_modules →
  is_Some (({["head" := true]} : gmap string bool) !! name) →
  0%nat ∉ m :: example_hierarchy m.
Proof.
  intros Hin Hs. apply elem_of_cons in Hin as [[= -> ->]|Hin].
  - rewrite lookup_singleton_ne in Hs by done. by destruct Hs.
  - apply elem_of_cons in Hin as [[= -> ->]|Hin].
    + compute_done.
    + by apply elem_of_nil in Hin.
Qed.

Lemma head_misses_child (name : string) (m : mod_id) :
  (name, m) ∈ example_modules → name ≠ "model" →
  1%nat ∉ m :: example_hierarchy m.
Proof.
  intros Hin Hne. apply elem_of_cons in Hin as [[= -> ->]|Hin]; [done |].
  apply elem_of_cons in Hin as [[= -> ->]|Hin].
  - compute_done.
  - by apply elem_of_nil in Hin.
Qed.

Lemma reset_module_training_mode_frame_witness :
  _reset_module_training_mode example_hierarchy example_modules
    {["head" := true]} (λ _, false) 0%nat = false.
Proof.
  exact (reset_module_training_mode_frame example_hierarchy example_modules
           {["head" := true]} (λ _, false) 0%nat head_only_misses_model).
Defined.

Lemma reset_restores_from_any_store_witness :
  _reset_module_training_mode example_hierarchy example_modules
    (_set_module_training_mode example_hierarchy example_modules true
       example_store).1 (λ _, true) 0%nat = example_store 0%nat.
Proof.
  apply (reset_restores_from_any_store example_hierarchy example_modules true
           example_store (λ _, true) "model" 0%nat).
  - exact example_modules_NoDup.
  - exact example_modules_independent.
  - apply list_elem_of_here.
Defined.

Lemma reset_gives_submodule_parent_flag_witness :
  let σ : store := λ x, bool_decide (x = 1%nat) in
  let r := _set_module_training_mode example_hierarchy example_modules false
             σ in
  σ 1%nat = true
  ∧ _reset_module_training_mode example_hierarchy example_modules r.1 r.2
      1%nat = σ 0%nat.
Proof.
  intros σ r. split; [reflexivity |].
  apply (reset_gives_submodule_parent_flag example_hierarchy example_modules
           false σ "model" 0%nat 1%nat).
  - exact example_modules_NoDup.
  - exact example_modules_independent.
  - apply list_elem_of_here.
  - apply list_elem_of_here.
  - exact head_misses_child.
Defined.

Lemma set_reset_restores_whole_store_witness :
  let r := _set_module_training_mode example_hierarchy example_modules true
             example_store in
  _reset_module_training_mode example_hierarchy example_modules r.1 r.2
    1%nat = example_store 1%nat.
Proof.
  apply (set_reset_restores_whole_store example_hierarchy example_modules true
           example_store 1%nat).
  - exact example_modules_NoDup.
  - exact example_modules_independent.
  - exact example_store_uniform.
Defined.

End TrainingModeEffectsWitnesses.

(** ** Further properties of the signature inspection *)

Section StepSignatureEffects.
Import StepSignature.

(** X13: the helper logs nothing exactly when ["data"] is annotated, never
    logs more than one record, and returns [False] whenever it logs. *)
Theorem step_requires_iterator_warns_iff_unannotated (step_func : callable) :
  ((_step_requires_iterator step_func).1 = []
   ↔ is_Some (arg_annotations step_func !! "data"))
  ∧ (length (_step_requires_iterator step_func).1 ≤ 1)%nat
  ∧ ((_step_requires_iterator step_func).1 ≠ [] →
     (_step_requires_iterator step_func).2 = Ok false).
Proof.
  destruct (arg_annotations step_func !! "data") as [t|] eqn:Ht.
  - rewrite (step_requires_iterator_annotated step_func t Ht). simpl.
    split; [split; [by eexists | done] |]. split; [lia | done].
  - unfold _step_requires_iterator. simpl.
    rewrite bool_decide_eq_true_2 by done. simpl.
    split; [split; [done | by intros [? [=]]] |]. split; [lia | done].
Qed.

(** X14: the answer depends on the origin of the ["data"] annotation alone:
    neither the type arguments, nor the other parameters and their
    annotations, nor the parameter order change it. *)
Theorem step_requires_iterator_only_origin (f g : callable)
    (t u : annotation) :
  arg_annotations f !! "data" = Some t →
  arg_annotations g !! "data" = Some u →
  get_origin t = get_origin u →
  _step_requires_iterator f = _step_requires_iterator g.
Proof.
  intros Hf Hg Ho.
  rewrite (step_requires_iterator_annotated f t Hf).
  rewrite (step_requires_iterator_annotated g u Hg).
  by rewrite Ho.
Qed.

Lemma step_requires_iterator_only_origin_witness :
  let int := Plain (TypeObj "int") in
  let f := {| arg_names := ["self"; "state"; "data"];
              arg_annotations :=
                {["data" := Alias collections_abc_Iterator [int]]} |} in
  let g := {| arg_names := ["data"; "state"];
              arg_annotations :=
                <["state" := int]>
                  {["data" := Alias collections_abc_Iterator
                                [Postponed "Batch"]]} |} in
  _step_requires_iterator f = _step_requires_iterator g
  ∧ (_step_requires_iterator g).2 = Ok true.
Proof.
  intros int f g.
  assert (Hf : arg_annotations f !! "data"
               = Some (Alias collections_abc_Iterator [int]))
    by reflexivity.
  assert (Hg : arg_annotations g !! "data"
               = Some (Alias collections_abc_Iterator [Postponed "Batch"]))
    by reflexivity.
  split; [| reflexivity].
  exact (step_requires_iterator_only_origin f g _ _ Hf Hg eq_refl).
Defined.

End StepSignatureEffects.

(** ** Further properties of the sampler epoch helper *)

Section SamplerEpochEffects.
Import SamplerEpoch.

(** X15: the helper never changes what kind of object a sampler is, makes at
    most one call, and never raises. *)
Theorem maybe_set_distributed_sampler_epoch_keeps_kinds
    (dataloader : iterable) (current_epoch : Z) (h : heap) :
  ∃ h' cs,
    _maybe_set_distributed_sampler_epoch dataloader current_epoch h
      = Ok (h', cs)
    ∧ (length cs ≤ 1)%nat
    ∧ ∀ x, is_DistributedSampler (h' x) = is_DistributedSampler (h x).
Proof.
  unfold _maybe_set_distributed_sampler_epoch.
  destruct dataloader as [s|]; simpl.
  - destruct (h s) as [e|] eqn:Hs; simpl.
    + do 2 eexists. split; [reflexivity |]. split; [simpl; lia |].
      intros x. unfold set_epoch. case_decide as Hx; [| done].
      subst x. by rewrite Hs.
    + do 2 eexists. split; [reflexivity |]. split; [simpl; lia | done].
  - do 2 eexists. split; [reflexivity |]. split; [simpl; lia | done].
Qed.

(** X16: of two calls in a row on one data loader the later epoch wins: the
    samplers end as after the second call alone, and the second call makes
    the same method calls either way. *)
Theorem maybe_set_distributed_sampler_epoch_last_wins
    (dataloader : iterable) (e1 e2 : Z) (h : heap) :
  ∃ h1 cs1 h2 cs2 h2',
    _maybe_set_distributed_sampler_epoch dataloader e1 h = Ok (h1, cs1)
    ∧ _maybe_set_distributed_sampler_epoch dataloader e2 h1 = Ok (h2, cs2)
    ∧ _maybe_set_distributed_sampler_epoch dataloader e2 h = Ok (h2', cs2)
    ∧ ∀ x, h2 x = h2' x.
Proof.
  unfold _maybe_set_distributed_sampler_epoch.
  destruct dataloader as [s|]; simpl.
  - destruct (h s) as [e|] eqn:Hs; simpl.
    + exists (set_epoch s e1 h), [SetEpoch s e1],
        (set_epoch s e2 (set_epoch s e1 h)), [SetEpoch s e2],
        (set_epoch s e2 h).
      split; [done |]. split.
      * unfold set_epoch at 1. by rewrite decide_True.
      * split; [done |]. intros x. unfold set_epoch. by case_decide.
    + exists h, [], h, [], h. by rewrite Hs.
  - by exists h, [], h, [], h.
Qed.

End SamplerEpochEffects.

(** ** Further properties of the logger model: [log_dict] and text series *)

Section TensorBoardEffects.
Import TensorBoard.
Context {scalar : Type}.

Lemma log_dict_pending (payload : list (string * scalar)) (step : Z)
    (p : string) (w : SummaryWriter scalar) :
  ∃ w', log_dict payload step {| path := p; writer := Some w |}
        = {| path := p; writer := Some w' |}
        ∧ log_dir w' = log_dir w
        ∧ pending w' = pending w ++ (dict_event step <$> payload).
Proof.
  unfold log_dict. revert w.
  induction payload as [|kv rest IH]; intros w.
  - exists w. by rewrite app_nil_r.
  - cbn [foldl]. unfold log at 2. cbn [writer path].
    destruct (IH (received (add_scalar kv.1 kv.2 step)
                    [{| ev_tag := kv.1; ev_step := step;
                        ev_tensor := FloatVal kv.2 |}] w))
      as (w' & Hrun & Hdir & Hpend).
    exists w'. split; [exact Hrun |]. split; [done |].
    rewrite Hpend. simpl. by rewrite <- app_assoc.
Qed.

Lemma filter_dict_event_absent (payload : list (string * scalar)) (step : Z)
    (tag : string) :
  tag ∉ payload.*1 →
  filter (λ e : event scalar, ev_tag e = tag) (dict_event step <$> payload)
  = [].
Proof.
  induction payload as [|kv rest IH]; intros Hn; [done |].
  rewrite fmap_cons, filter_cons_False.
  - apply IH. set_solver.
  - simpl. set_solver.
Qed.

Lemma filter_dict_event (payload : list (string * scalar)) (step : Z)
    (tag : string) (v : scalar) :
  NoDup payload.*1 → (tag, v) ∈ payload →
  filter (λ e : event scalar, ev_tag e = tag) (dict_event step <$> payload)
  = [dict_event step (tag, v)].
Proof.
  induction payload as [|kv rest IH]; intros Hnd Hin.
  - by apply elem_of_nil in Hin.
  - rewrite fmap_cons in Hnd. apply NoDup_cons in Hnd as [Hk Hnd].
    rewrite fmap_cons. apply elem_of_cons in Hin as [<-|Hin].
    + rewrite filter_cons_True by done.
      by rewrite filter_dict_event_absent.
    + rewrite filter_cons_False; [by apply IH |].
      simpl. intros Heq. apply Hk. rewrite Heq.
      apply list_elem_of_fmap. by exists (tag, v).
Qed.

Lemma ascii_str_encode (text : list Z) :
  Forall (λ c, 0 ≤ c < 128) text → str_encode text = Ok text.
Proof.
  intros H. unfold str_encode. rewrite decide_True.
  - f_equal. induction H as [|c text Hc _ IH]; [done |].
    rewrite bind_cons, IH. unfold utf8_encode_cp.
    rewrite decide_True by lia. done.
  - eapply Forall_impl; [exact H |]. intros c Hc.
    unfold is_scalar_value. simpl in Hc. lia.
Qed.

Lemma perform_all_log_text_calls (tag : string)
    (records : list (list Z * Z)) (rest : list (method_call scalar))
    (p : string) (w : SummaryWriter scalar) (fs : filesystem scalar) :
  Forall (λ r, Forall (λ c, 0 ≤ c < 128) r.1) records →
  ∃ w', log_dir w' = log_dir w
        ∧ pending w' = pending w ++ (text_event tag <$> records)
        ∧ perform_all (log_text_calls tag records ++ rest)
            ({| path := p; writer := Some w |}, fs)
          = perform_all rest ({| path := p; writer := Some w' |}, fs).
Proof.
  intros Hall. revert w.
  induction Hall as [|r records Hr _ IH]; intros w.
  - exists w. by rewrite app_nil_r.
  - destruct (IH (received (add_text tag r.1 r.2) [text_event tag r] w))
      as (w' & Hdir & Hpend & Hrun).
    exists w'. split; [done |]. split.
    + rewrite Hpend. simpl. by rewrite <- app_assoc.
    + rewrite <- Hrun. simpl. unfold log_text. simpl.
      by rewrite (ascii_str_encode r.1 Hr).
Qed.

Lemma filter_text_events (tag : string) (records : list (list Z * Z)) :
  filter (λ e : event scalar, ev_tag e = tag +:+ "/text_summary")
    (text_event tag <$> records)
  = text_event tag <$> records.
Proof.
  induction records as [|r records IH]; [done |].
  rewrite fmap_cons, filter_cons_True by done. by rewrite IH.
Qed.

(** X17: on the writing process and a fresh directory, [log_dict] of a
    mapping at one step followed by [close] leaves under each tag of the
    mapping exactly one record, with the mapped value at that step. *)
Theorem log_dict_then_reload (env : gmap string string) (p : string)
    (fs : filesystem scalar) (payload : list (string * scalar)) (step : Z) :
  get_global_rank env = Ok 0 → fs !! p = None → NoDup payload.*1 →
  ∃ logger' fs',
    session env p fs [call_log_dict payload step; call_close]
      = Ok (logger', fs')
    ∧ ∀ tag v, (tag, v) ∈ payload →
        Tensors fs' p tag
        = [{| ev_tag := tag; ev_step := step; ev_tensor := FloatVal v |}].
Proof.
  intros Hrank Hfresh Hnd.
  unfold session, init. rewrite Hrank, Hfresh. simpl.
  destruct (log_dict_pending payload step p
              {| log_dir := p; calls := []; pending := [] |})
    as (w' & Hrun & Hdir & Hpend).
  simpl in Hdir, Hpend. rewrite Hrun. unfold close. simpl.
  rewrite Hdir, Hpend. rewrite lookup_insert_eq. simpl.
  do 2 eexists. split; [reflexivity |].
  intros tag v Hin. unfold Tensors. rewrite lookup_insert_eq. simpl.
  by rewrite (filter_dict_event payload step tag v).
Qed.

(** X18: on the writing process and a fresh directory, [log_text] calls of
    ASCII texts followed by [close] leave under the text tag one record
    per call, in call order, each at its step and with bytes that
    [decode("ASCII")] turns back into the text. *)
Theorem log_text_series_reload (env : gmap string string) (p tag : string)
    (fs : filesystem scalar) (records : list (list Z * Z)) :
  get_global_rank env = Ok 0 → fs !! p = None →
  Forall (λ r, Forall (λ c, 0 ≤ c < 128) r.1) records →
  ∃ logger' fs',
    session env p fs (log_text_calls tag records ++ [call_close])
      = Ok (logger', fs')
    ∧ Forall2 (λ (e : event scalar) r,
                 ev_step e = r.2
                 ∧ ∃ bytes, ev_tensor e = StringVal bytes
                            ∧ ascii_decode bytes = Ok r.1)
        (Tensors fs' p (tag +:+ "/text_summary")) records.
Proof.
  intros Hrank Hfresh Hall.
  unfold session, init. rewrite Hrank, Hfresh. simpl.
  destruct (perform_all_log_text_calls tag records [call_close] p
              {| log_dir := p; calls := []; pending := [] |}
              (<[p := []]> fs) Hall) as (w' & Hdir & Hpend & Hrun).
  simpl in Hdir, Hpend. rewrite Hrun. simpl. unfold close. simpl.
  rewrite Hdir, Hpend. rewrite lookup_insert_eq. simpl.
  do 2 eexists. split; [reflexivity |].
  unfold Tensors. rewrite lookup_insert_eq. simpl.
  rewrite filter_text_events.
  apply Forall2_fmap_l. apply Forall_Forall2_diag.
  eapply Forall_impl; [exact Hall |]. intros r Hr. simpl.
  split; [done |]. exists r.1. split; [done |].
  unfold ascii_decode. by rewrite decide_True.
Qed.

End TensorBoardEffects.

Section TensorBoardEffectsWitnesses.
Import TensorBoard.

(** The scenario of [test_log_dict], with two tags. *)
Lemma log_dict_then_reload_witness :
  ∃ (logger' : TensorBoardLogger Z) fs',
    session ∅ "log_dir" ∅
      [call_log_dict [("log_dict_0", 0); ("log_dict_1", 1)] 1; call_close]
      = Ok (logger', fs')
    ∧ Tensors fs' "log_dir" "log_dict_1"
      = [{| ev_tag := "log_dict_1"; ev_step := 1; ev_tensor := FloatVal 1 |}].
Proof.
  assert (Hrank : get_global_rank ∅ = Ok 0) by reflexivity.
  assert (Hfresh : (∅ : filesystem Z) !! "log_dir" = None) by reflexivity.
  assert (Hnd : NoDup [("log_dict_0", 0); ("log_dict_1", 1)].*1)
    by compute_done.
  destruct (log_dict_then_reload (scalar := Z) ∅ "log_dir" ∅
              [("log_dict_0", 0); ("log_dict_1", 1)] 1 Hrank Hfresh Hnd)
    as (logger' & fs' & Hrun & Htags).
  exists logger', fs'. split; [exact Hrun |].
  apply Htags. apply list_elem_of_further, list_elem_of_here.
Defined.

(** The scenario of [test_log_text], with two texts. *)
Lemma log_text_series_reload_witness :
  let records := [(code_points "iter:0", 0); (code_points "iter:1", 1)] in
  ∃ (logger' : TensorBoardLogger Z) fs',
    session ∅ "log_dir" ∅ (log_text_calls "test_text" records ++ [call_close])
      = Ok (logger', fs')
    ∧ Forall2 (λ (e : event Z) r,
                 ev_step e = r.2
                 ∧ ∃ bytes, ev_tensor e = StringVal bytes
                            ∧ ascii_decode bytes = Ok r.1)
        (Tensors fs' "log_dir" ("test_text" +:+ "/text_summary")) records.
Proof.
  intros records.
  assert (Hrank : get_global_rank ∅ = Ok 0) by reflexivity.
  assert (Hfresh : (∅ : filesystem Z) !! "log_dir" = None) by reflexivity.
  assert (Hascii : Forall (λ r : list Z * Z, Forall (λ c, 0 ≤ c < 128) r.1)
                     records) by compute_done.
  exact (log_text_series_reload (scalar := Z) ∅ "log_dir" "test_text" ∅
           records Hrank Hfresh Hascii).
Defined.

End TensorBoardEffectsWitnesses.
